(** * shor2.py: the RSA demonstration core of the dashboard

    The script derives a toy RSA key pair from two fixed primes, encrypts a
    random session key with the built-in three-argument [pow], and, when the
    button is pressed, recovers the session key from the known factors.

    The development has three layers:
    - [Py]: the Python built-ins the script calls ([pow] on integers with a
      modulus, as CPython's [long_pow] and [long_invmod] compute it), with
      exceptions as values;
    - [Script]: the module-level statements of shor2.py as a state and error
      monad over the global namespace (a finite map from names to values);
    - the properties of the key setup, the encryption and the recovery. *)

From Stdlib Require Import ZArith Znumtheory Lia.
From Stdlib Require Zmod.ZmodInv.
From stdpp Require Import base strings gmap.
From Equations Require Import Equations.

#[local] Open Scope Z_scope.

(** ** Exceptions and results *)

(** The exception classes the modelled statements can raise. *)
Inductive exn : Type :=
| ValueError (msg : string)
| NameError (name : string)
| TypeError (msg : string)
| AttributeError (msg : string).

(** The name of the exception's class, as [type(exc).__name__] gives it. *)
Definition exn_class (x : exn) : string :=
  match x with
  | ValueError _ => "ValueError"
  | NameError _ => "NameError"
  | TypeError _ => "TypeError"
  | AttributeError _ => "AttributeError"
  end.

(** A computation either returns a value or raises. *)
Inductive result (A : Type) : Type :=
| Ok (a : A)
| Raise (x : exn).
Arguments Ok {A} a.
Arguments Raise {A} x.

Module Py.

(** ** Integer built-ins *)

(** [long_invmod(a, n)]: the loop
    [b, c = 1, 0; while n: q, r = divmod(a, n); a, n, b, c = n, r, c, b - q*c]
    returning the last [a] (the gcd) and [b] (the Bezout coefficient). Python's
    [divmod] on integers is floor division, which is [Z.div] and [Z.modulo]. *)
Equations? long_invmod_loop (a n b c : Z) : Z * Z by wf (Z.abs_nat n) lt :=
  long_invmod_loop a n b c with Z.eq_dec n 0 := {
    | left _ => (a, b)
    | right _ => long_invmod_loop n (a mod n) c (b - (a / n) * c) }.
Proof.
  pose proof (Z.mod_pos_bound a n). pose proof (Z.mod_neg_bound a n). lia.
Qed.

(** [long_invmod] proper: the inverse exists when the gcd found is 1. *)
Definition long_invmod (a n : Z) : result Z :=
  let '(g, b) := long_invmod_loop a n 1 0 in
  if g =? 1 then Ok b
  else Raise (ValueError "base is not invertible for the given modulus").

(** Left-to-right binary exponentiation over the bits of the exponent: the
    accumulator starts at the base for the leading bit, and for every further
    bit it is squared and, when the bit is set, multiplied by the base, each
    product being reduced modulo [c]. *)
Fixpoint pow_bits (a c : Z) (bits : positive) : Z :=
  match bits with
  | xH => a
  | xO hi => let z := pow_bits a c hi in (z * z) mod c
  | xI hi => let z := pow_bits a c hi in (((z * z) mod c) * a) mod c
  end.

(** The exponentiation loop of [long_pow] for a reduced base [a], a
    non-negative exponent [b] and a modulus [c > 1]. *)
Definition pow_loop (a b c : Z) : Z :=
  match b with
  | Z0 => 1
  | Zpos bits => pow_bits a c bits
  | Zneg _ => 1
  end.

(** [pow(v, w, x)] on integers, in the order of CPython's [long_pow]: a zero
    modulus raises; a negative modulus is negated and remembered; modulus 1
    returns 0; a negative exponent is negated and the base replaced by its
    modular inverse; the base is reduced; the loop runs; the result of a
    negative modulus is shifted into [(x, 0]]. *)
Definition long_pow (v w x : Z) : result Z :=
  if x =? 0 then Raise (ValueError "pow() 3rd argument cannot be 0")
  else
    let negativeOutput := x <? 0 in
    let c := Z.abs x in
    if c =? 1 then Ok 0
    else
      let step (a b : Z) : result Z :=
        let z := pow_loop (a mod c) b c in
        Ok (if negativeOutput && negb (z =? 0) then z - c else z) in
      if w <? 0 then
        match long_invmod v c with
        | Ok a => step a (- w)
        | Raise err => Raise err
        end
      else step v w.

(** The cross-check the specification asks for: the product of [k] copies of
    [b], built one factor at a time and reduced modulo [n] at every step,
    starting from the empty product 1 (reduced as well). *)
Definition naive_pow (b : Z) (k : nat) (n : Z) : Z :=
  Nat.iter k (fun acc => (acc * b) mod n) (1 mod n).

End Py.

Arguments Py.long_pow : simpl never.

(** ** The script *)

Module Script.
Import Py.

(** What a global name can hold: an integer, or an object the core never
    computes with (a DataFrame, a figure, a list of columns, a label). *)
Inductive value : Type :=
| VInt (z : Z)
| VObj (kind : string).

(** What the run receives from outside: the integer [random.randint(a, b)]
    returns, and whether the button was pressed in this run. *)
Record world : Type := World {
  draw : Z -> Z -> Z;
  button_pressed : bool
}.

(** The contract of [random.randint]: some [N] with [a <= N <= b]. *)
Definition world_ok (w : world) : Prop :=
  forall a b, a <= b -> a <= draw w a b <= b.

(** The module's global namespace and the integer metrics put on screen. *)
Record state : Type := State {
  globals : gmap string value;
  screen : list (string * Z)
}.

Definition initial : state := State ∅ [].

(** A world for tests: the random source returns [k] whenever [k] is in the
    range asked for, and the nearest bound otherwise. *)
Definition fixed_world (k : Z) (pressed : bool) : world :=
  World (fun a b => Z.max a (Z.min k b)) pressed.

(** Statements read the world, update the state and may raise. *)
Definition py (A : Type) : Type := world -> state -> result (A * state).

#[global] Instance py_ret : MRet py := fun A a _ s => Ok (a, s).

#[global] Instance py_bind : MBind py := fun A B k m w s =>
  match m w s with
  | Ok (a, s') => k a w s'
  | Raise x => Raise x
  end.

Definition raise {A : Type} (x : exn) : py A := fun _ _ => Raise x.

Definition lift {A : Type} (r : result A) : py A := fun _ s =>
  match r with
  | Ok a => Ok (a, s)
  | Raise x => Raise x
  end.

(** Reading a global name. *)
Definition load (x : string) : py value := fun _ s =>
  match globals s !! x with
  | Some v => Ok (v, s)
  | None => Raise (NameError x)
  end.

(** Integer arithmetic needs an integer operand. *)
Definition as_int (v : value) : py Z :=
  match v with
  | VInt z => mret z
  | VObj _ => raise (TypeError "unsupported operand type(s)")
  end.

Definition load_int (x : string) : py Z := load x ≫= as_int.

(** [x = v] at module level. *)
Definition assign (x : string) (v : value) : py unit := fun _ s =>
  Ok (tt, State (<[x:=v]> (globals s)) (screen s)).

(** [random.randint(a, b)]. *)
Definition randint (a b : Z) : py Z := fun w s =>
  if a <=? b then Ok (draw w a b, s)
  else Raise (ValueError "empty range for randrange()").

(** [st.button(...)]. *)
Definition button : py bool := fun w s => Ok (button_pressed w, s).

(** Binding names to objects of one kind, left to right. *)
Fixpoint bind_objs (kind : string) (names : list string) : py unit :=
  match names with
  | [] => mret tt
  | x :: rest => assign x (VObj kind) ;; bind_objs kind rest
  end.

(** [col.metric(label, x)] for an integer global [x]: the method is looked
    up on [col] before the argument is evaluated. *)
Definition metric (col label x : string) : py unit :=
  c ← load col;
  match c return py unit with
  | VObj _ =>
      v ← load_int x;
      (fun _ s => Ok (tt, State (globals s) (screen s ++ [(label, v)]))) : py unit
  | VInt _ => raise (AttributeError "int object has no attribute metric")
  end.

(** Lines 23 to 27, for any two factors and public exponent in place of the
    literals 17, 23 and 3. *)
Definition rsa_keys (p0 q0 e0 : Z) : py unit :=
  assign "p" (VInt p0) ;;
  assign "q" (VInt q0) ;;
  p ← load_int "p"; q ← load_int "q";
  assign "n" (VInt (p * q)) ;;
  p ← load_int "p"; q ← load_int "q";
  assign "phi" (VInt ((p - 1) * (q - 1))) ;;
  assign "e" (VInt e0) ;;
  e ← load_int "e"; phi ← load_int "phi";
  d ← lift (long_pow e (-1) phi);
  assign "d" (VInt d).

(** Lines 29 and 30. *)
Definition rsa_session : py unit :=
  k ← randint 20 80;
  assign "session_key" (VInt k) ;;
  k ← load_int "session_key"; e ← load_int "e"; n ← load_int "n";
  c ← lift (long_pow k e n);
  assign "encrypted_key" (VInt c).

(** The whole setup, lines 23 to 30, for those parameters. *)
Definition rsa_setup_with (p0 q0 e0 : Z) : py unit :=
  rsa_keys p0 q0 e0 ;; rsa_session.

(** The setup as the script has it. *)
Definition rsa_setup : py unit := rsa_setup_with 17 23 3.

(** Sections 1 to 4 (lines 35 to 128): charts and panels. They read [p], [q]
    and [n], bind their own names and show [n] as a metric. *)
Definition sections_1_4 : py unit :=
  _ ← load "p"; _ ← load "q"; _ ← load "n";
  bind_objs "DataFrame" ["df_rsa"] ;;
  bind_objs "Figure" ["fig_rsa"] ;;
  bind_objs "list" ["cols"; "labels"] ;;
  bind_objs "column" ["col"] ;;
  bind_objs "str" ["label"] ;;
  bind_objs "DataFrame" ["df_time"] ;;
  bind_objs "Figure" ["fig_time"] ;;
  bind_objs "column" ["c1"; "c2"; "c3"; "c4"] ;;
  metric "c1" "RSA Modulus (n)" "n" ;;
  bind_objs "DataFrame" ["timeline_df"] ;;
  bind_objs "Figure" ["fig_timeline"].

(** The body of the [if] of section 5 (lines 138 to 145). *)
Definition shor_attack : py unit :=
  p ← load "p"; q ← load "q";
  assign "p_found" p ;;
  assign "q_found" q ;;
  e ← load_int "e"; pf ← load_int "p_found"; qf ← load_int "q_found";
  d_eve ← lift (long_pow e (-1) ((pf - 1) * (qf - 1)));
  assign "d_eve" (VInt d_eve) ;;
  c ← load_int "encrypted_key"; x ← load_int "d_eve"; n ← load_int "n";
  r ← lift (long_pow c x n);
  assign "recovered_key" (VInt r) ;;
  bind_objs "column" ["c1"; "c2"; "c3"] ;;
  metric "c1" "Recovered p" "p_found" ;;
  metric "c2" "Recovered q" "q_found" ;;
  metric "c3" "Recovered Session Key" "recovered_key".

(** Section 5 (line 137): the attack runs when the button was pressed. *)
Definition section_5 : py unit :=
  button ≫= fun pressed : bool =>
  if pressed then shor_attack else mret tt.

(** Sections 6 and 7 (lines 150 to 196). *)
Definition sections_6_7 : py unit :=
  bind_objs "list" ["cols"] ;;
  bind_objs "DataFrame" ["radar_df"] ;;
  bind_objs "Figure" ["fig_radar"].

(** One run of the script. *)
Definition main : py unit :=
  rsa_setup ;; sections_1_4 ;; section_5 ;; sections_6_7.

(** The state a run ends in (the initial one when it raised). *)
Definition state_after {A : Type} (r : result (A * state)) : state :=
  match r with
  | Ok (_, s) => s
  | Raise _ => initial
  end.

(** A run to try the statements on: the session key drawn is 50 and the
    button is pressed. *)
Definition demo_world : world := fixed_world 50 true.

(** The states that run is in after line 30 and before section 5. *)
Definition demo_after_setup : state :=
  state_after (rsa_setup demo_world initial).

Definition demo_before_attack : state :=
  state_after (sections_1_4 demo_world demo_after_setup).

(** The global [x] as an integer, when it is bound to one. *)
Definition int_of (s : state) (x : string) : option Z :=
  match globals s !! x with
  | Some (VInt z) => Some z
  | _ => None
  end.

(** The entities of the data model, as global names. *)
Definition entities : list string :=
  ["p"; "q"; "n"; "phi"; "e"; "d"; "session_key"; "encrypted_key"].

(** The names the recovery step reads from the state it starts in. *)
Definition attack_inputs : list string :=
  ["p"; "q"; "e"; "n"; "encrypted_key"].

(** [m] assigns to no global outside [W]. *)
Definition writes {A : Type} (W : list string) (m : py A) : Prop :=
  forall w s a s', m w s = Ok (a, s') ->
  forall x, x ∉ W -> globals s' !! x = globals s !! x.

End Script.

(** * Properties of the built-ins *)

Module PyFacts.
Import Py.

Section Invmod.

Lemma long_invmod_loop_spec (a0 m : Z) a n b c :
  0 <= n -> (n = 0 -> 0 <= a) ->
  (m | b * a0 - a) -> (m | c * a0 - n) ->
  fst (long_invmod_loop a n b c) = Z.gcd a n /\
  (m | snd (long_invmod_loop a n b c) * a0 - Z.gcd a n).
Proof.
  funelim (long_invmod_loop a n b c); intros Hn Ha Hb Hc.
  - subst n. simpl. rewrite Z.gcd_0_r, Z.abs_eq by auto. auto.
  - assert (Hpos : 0 < n) by lia.
    pose proof (Z.mod_pos_bound a n Hpos) as Hr.
    assert (Hg : Z.gcd n (a mod n) = Z.gcd a n).
    { rewrite (Z.gcd_comm n), Z.gcd_mod by lia. apply Z.gcd_comm. }
    rewrite <- Hg. apply H; try lia; try assumption.
    replace ((b - a / n * c) * a0 - a mod n)
      with ((b * a0 - a) - (a / n) * (c * a0 - n))
      by (rewrite (Z.mod_eq a n) by lia; ring).
    apply Z.divide_sub_r; [assumption | now apply Z.divide_mul_r].
Qed.

Lemma long_invmod_ok a c :
  0 < c -> Z.gcd a c = 1 ->
  exists x, long_invmod a c = Ok x /\ (c | x * a - 1).
Proof.
  intros Hc Hg. unfold long_invmod.
  destruct (long_invmod_loop_spec a c a c 1 0) as [H1 H2]; try lia.
  - exists 0. ring.
  - exists (-1). ring.
  - destruct (long_invmod_loop a c 1 0) as [g x]. simpl in *.
    rewrite Hg in *. subst g. simpl. eauto.
Qed.

Lemma long_invmod_fail a c :
  0 < c -> Z.gcd a c <> 1 ->
  long_invmod a c = Raise (ValueError "base is not invertible for the given modulus").
Proof.
  intros Hc Hg. unfold long_invmod.
  destruct (long_invmod_loop_spec a c a c 1 0) as [H1 _]; try lia.
  - exists 0. ring.
  - exists (-1). ring.
  - destruct (long_invmod_loop a c 1 0) as [g x]. simpl in *. subst g.
    destruct (Z.eqb_spec (Z.gcd a c) 1); [contradiction | reflexivity].
Qed.

End Invmod.

Section Pow.

Lemma pow_bits_spec a c bits :
  pow_bits (a mod c) c bits = a ^ Zpos bits mod c.
Proof.
  induction bits as [hi IH | hi IH |]; simpl pow_bits.
  - rewrite IH, Pos2Z.inj_xI.
    replace (2 * Z.pos hi + 1) with (Z.pos hi + Z.pos hi + 1) by lia.
    rewrite !Z.pow_add_r, Z.pow_1_r by lia.
    now rewrite (Zmult_mod (a ^ Z.pos hi * a ^ Z.pos hi) a c),
      (Zmult_mod (a ^ Z.pos hi) (a ^ Z.pos hi) c).
  - rewrite IH, Pos2Z.inj_xO.
    replace (2 * Z.pos hi) with (Z.pos hi + Z.pos hi) by lia.
    rewrite Z.pow_add_r by lia. now rewrite <- Zmult_mod.
  - now rewrite Z.pow_1_r.
Qed.

Lemma pow_loop_spec a b c :
  1 < c -> 0 <= b -> pow_loop (a mod c) b c = a ^ b mod c.
Proof.
  intros Hc Hb. destruct b as [| bits | bits]; simpl pow_loop.
  - rewrite Z.pow_0_r, Z.mod_1_l; auto.
  - apply pow_bits_spec.
  - lia.
Qed.

(** For a non-negative exponent, [pow(v, w, x)] is total on a non-zero modulus
    and is the power reduced by Python's [%]. *)
Lemma long_pow_nonneg v w x :
  x <> 0 -> 0 <= w -> long_pow v w x = Ok (v ^ w mod x).
Proof.
  intros Hx Hw. unfold long_pow.
  destruct (Z.eqb_spec x 0) as [|_]; [contradiction|].
  destruct (Z.eqb_spec (Z.abs x) 1) as [H1|H1].
  - f_equal. assert (x = 1 \/ x = -1) as [-> | ->] by lia.
    + now rewrite Z.mod_1_r.
    + symmetry. apply Z.mod_divide; [lia|]. exists (- v ^ w). ring.
  - destruct (Z.ltb_spec w 0) as [|_]; [lia|].
    rewrite pow_loop_spec by lia. f_equal.
    destruct (Z.ltb_spec x 0) as [Hneg|Hpos]; simpl.
    + replace (Z.abs x) with (- x) by lia.
      destruct (Z.eqb_spec (v ^ w mod - x) 0) as [Hz|Hz]; simpl.
      * rewrite Hz. symmetry. apply Z.mod_divide; [lia|].
        apply Z.mod_divide in Hz; [|lia]. now apply Z.divide_opp_l.
      * pose proof (Z_mod_nz_opp_r (v ^ w) (- x) Hz) as Ho.
        rewrite Z.opp_involutive in Ho. lia.
    + now rewrite Z.abs_eq by lia.
Qed.

(** The inverse: what [pow(e, -1, phi)] returns on a modulus above 1. *)
Lemma long_pow_inverse e phi :
  1 < phi -> Z.gcd e phi = 1 ->
  exists d, long_pow e (-1) phi = Ok d /\ 0 <= d < phi /\ (e * d) mod phi = 1.
Proof.
  intros Hphi Hg. unfold long_pow.
  destruct (Z.eqb_spec phi 0) as [|_]; [lia|].
  rewrite (Z.abs_eq phi) by lia.
  destruct (Z.eqb_spec phi 1) as [|_]; [lia|].
  destruct (long_invmod_ok e phi) as (x & -> & Hx); [lia | assumption |].
  simpl. destruct (Z.ltb_spec phi 0) as [|_]; [lia|]. simpl.
  exists (x mod phi). split; [reflexivity|].
  split; [apply Z.mod_pos_bound; lia|].
  rewrite Zmult_mod_idemp_r.
  destruct Hx as [k Hk]. replace (e * x) with (1 + k * phi) by lia.
  rewrite Z.mod_add by lia. apply Z.mod_1_l. lia.
Qed.

(** Without an inverse [pow(e, -1, phi)] raises [ValueError], from the zero
    test of the modulus or from [long_invmod]. *)
Lemma long_pow_no_inverse e phi :
  Z.gcd e phi <> 1 ->
  long_pow e (-1) phi =
    Raise (ValueError (if phi =? 0 then "pow() 3rd argument cannot be 0"
                       else "base is not invertible for the given modulus")).
Proof.
  intros Hg. unfold long_pow.
  destruct (Z.eqb_spec phi 0) as [|Hnz]; [reflexivity|].
  destruct (Z.eqb_spec (Z.abs phi) 1) as [H1|_].
  - exfalso. apply Hg. rewrite <- Z.gcd_abs_r, H1. apply Z.gcd_1_r.
  - simpl. rewrite long_invmod_fail; [reflexivity | lia |].
    now rewrite Z.gcd_abs_r.
Qed.

(** A negative exponent inverts the base first, so it needs a base coprime to
    the modulus: [pow(0, -1, 15)] raises. This is why the round trip is stated
    for a positive public exponent. *)
Example negative_exponent_needs_unit :
  long_pow 0 (-1) 15 =
    Raise (ValueError "base is not invertible for the given modulus").
Proof. vm_compute. reflexivity. Qed.

(** On modulus 1 the built-in returns 0 even for exponent 0. *)
Example pow_modulus_one : long_pow 0 0 1 = Ok 0.
Proof. reflexivity. Qed.

End Pow.

Section RSA.

Lemma pow_fermat_cycle p m j :
  Z.prime p -> 0 <= j -> m ^ (1 + j * (p - 1)) mod p = m mod p.
Proof.
  intros Hp Hj. pose proof (Z.prime_ge_2 p Hp) as Hp2.
  rewrite Z.pow_add_r, Z.pow_1_r by nia.
  destruct (Z.eq_dec (m mod p) 0) as [Hz|Hnz].
  - rewrite <- Zmult_mod_idemp_l, Hz. now rewrite Z.mul_0_l, Z.mod_0_l by lia.
  - assert (Hc : m ^ (j * (p - 1)) mod p = 1).
    { replace (j * (p - 1)) with ((p - 1) * j) by ring.
      rewrite Z.pow_mul_r by lia.
      rewrite <- Z.mod_pow_l, (ZmodInv.Z.fermat_nz p m Hp Hnz).
      rewrite Z.pow_1_l by lia. apply Z.mod_1_l. lia. }
    now rewrite <- Zmult_mod_idemp_r, Hc, Z.mul_1_r.
Qed.

Lemma rsa_exponent_cycle p q m k :
  Z.prime p -> Z.prime q -> p <> q -> 0 <= k ->
  m ^ (1 + k * ((p - 1) * (q - 1))) mod (p * q) = m mod (p * q).
Proof.
  intros Hp Hq Hne Hk.
  pose proof (Z.prime_ge_2 p Hp). pose proof (Z.prime_ge_2 q Hq).
  apply Z.cong_iff_0. apply Z.mod_divide; [nia|].
  assert (Hdp : (p | m ^ (1 + k * ((p - 1) * (q - 1))) - m)).
  { apply Z.mod_divide; [lia|]. apply Z.cong_iff_0.
    replace (k * ((p - 1) * (q - 1))) with (k * (q - 1) * (p - 1)) by ring.
    apply pow_fermat_cycle; [assumption | nia]. }
  assert (Hdq : (q | m ^ (1 + k * ((p - 1) * (q - 1))) - m)).
  { apply Z.mod_divide; [lia|]. apply Z.cong_iff_0.
    replace (k * ((p - 1) * (q - 1))) with (k * (p - 1) * (q - 1)) by ring.
    apply pow_fermat_cycle; [assumption | nia]. }
  destruct Hdp as [u Hu]. rewrite Hu in *.
  assert (Hcop : Z.gcd q p = 1).
  { apply Z.coprime_prime_l; [assumption|]. intros Hd.
    destruct (Z.divide_prime_r q p Hp Hd) as [?|[?|[?|?]]]; lia. }
  rewrite Z.mul_comm in Hdq. apply Z.gauss in Hdq; [|assumption].
  destruct Hdq as [t ->]. exists t. ring.
Qed.

End RSA.

Section Naive.

Lemma naive_pow_spec b k n : naive_pow b k n = b ^ Z.of_nat k mod n.
Proof.
  unfold naive_pow. induction k as [|k IH].
  - reflexivity.
  - rewrite Nat2Z.inj_succ, Z.pow_succ_r by lia. simpl Nat.iter.
    rewrite IH, Zmult_mod_idemp_l. f_equal. ring.
Qed.

End Naive.

End PyFacts.

(** * Properties of the script's statements *)

Module ScriptFacts.
Import Py PyFacts Script.

Section Frame.
Context {A B : Type}.
Implicit Types (W : list string).

Lemma writes_ret W (a : A) : writes W (mret a).
Proof. intros w s a' s' H x _. now inversion H. Qed.

Lemma writes_bind W (m : py A) (k : A -> py B) :
  writes W m -> (forall a, writes W (k a)) -> writes W (m ≫= k).
Proof.
  intros Hm Hk w s b s' H x Hx. unfold mbind, py_bind in H.
  destruct (m w s) as [[a s1]|] eqn:E; [|discriminate].
  rewrite (Hk a w s1 b s' H x Hx). exact (Hm w s a s1 E x Hx).
Qed.

Lemma writes_raise W (e : exn) : writes W (@raise A e).
Proof. intros w s a s' H. discriminate. Qed.

Lemma writes_lift W (r : result A) : writes W (lift r).
Proof. intros w s a s' H x _. destruct r; inversion H. reflexivity. Qed.

End Frame.

Lemma writes_load W x : writes W (load x).
Proof.
  intros w s a s' H y _. unfold load in H.
  destruct (globals s !! x); inversion H. reflexivity.
Qed.

Lemma writes_as_int W v : writes W (as_int v).
Proof. destruct v; [apply writes_ret | apply writes_raise]. Qed.

Lemma writes_load_int W x : writes W (load_int x).
Proof. apply writes_bind; [apply writes_load | apply writes_as_int]. Qed.

Lemma writes_assign W x v : x ∈ W -> writes W (assign x v).
Proof.
  intros Hin w s a s' H y Hy. inversion H; subst. simpl.
  apply lookup_insert_ne. intros ->. contradiction.
Qed.

Lemma writes_randint W a b : writes W (randint a b).
Proof.
  intros w s k s' H y _. unfold randint in H.
  destruct (a <=? b); inversion H. reflexivity.
Qed.

Lemma writes_button W : writes W button.
Proof. intros w s k s' H y _. inversion H. reflexivity. Qed.

Lemma writes_bind_objs W kind names :
  Forall (fun x => x ∈ W) names -> writes W (bind_objs kind names).
Proof.
  induction 1 as [|x rest Hx _ IH]; simpl.
  - apply writes_ret.
  - apply writes_bind; [now apply writes_assign | intros _; apply IH].
Qed.

Lemma writes_metric W col label x : writes W (metric col label x).
Proof.
  unfold metric. apply writes_bind; [apply writes_load|]. intros c.
  destruct c; [apply writes_raise|].
  apply writes_bind; [apply writes_load_int|]. intros v.
  intros w s a s' H y _. inversion H. reflexivity.
Qed.

Create HintDb frame.
#[local] Hint Resolve writes_load writes_load_int writes_randint writes_button
  writes_metric : frame.
#[local] Hint Extern 1 (writes _ (mret _)) => apply writes_ret : frame.
#[local] Hint Extern 1 (writes _ (lift _)) => apply writes_lift : frame.
#[local] Hint Extern 2 (writes _ (_ ≫= _)) => apply writes_bind; [|intros ?] : frame.
#[local] Hint Extern 1 (writes _ (assign _ _)) => apply writes_assign; solve [repeat constructor] : frame.
#[local] Hint Extern 1 (writes _ (bind_objs _ _)) => apply writes_bind_objs; solve [repeat constructor] : frame.

Lemma shor_attack_writes :
  writes ["p_found"; "q_found"; "d_eve"; "recovered_key"; "c1"; "c2"; "c3"]
    shor_attack.
Proof. unfold shor_attack. auto 40 with frame. Qed.

Lemma section_5_writes :
  writes ["p_found"; "q_found"; "d_eve"; "recovered_key"; "c1"; "c2"; "c3"]
    section_5.
Proof.
  unfold section_5. apply writes_bind; [apply writes_button|].
  intros [|]; [apply shor_attack_writes | apply writes_ret].
Qed.

Lemma sections_1_4_writes :
  writes ["df_rsa"; "fig_rsa"; "cols"; "labels"; "col"; "label"; "df_time";
          "fig_time"; "c1"; "c2"; "c3"; "c4"; "timeline_df"; "fig_timeline"]
    sections_1_4.
Proof. unfold sections_1_4. auto 40 with frame. Qed.

Lemma sections_6_7_writes :
  writes ["cols"; "radar_df"; "fig_radar"] sections_6_7.
Proof. unfold sections_6_7. auto 40 with frame. Qed.

(** Unfolding the monad on a known state. *)
Ltac run :=
  unfold mbind, py_bind, load_int, load, assign, lift, randint, button,
    mbind, py_bind, as_int, mret, py_ret; simpl; simplify_map_eq.

Lemma rsa_keys_run p q e w s :
  rsa_keys p q e w s =
    match long_pow e (-1) ((p - 1) * (q - 1)) with
    | Ok d =>
        Ok (tt, State (<["d":=VInt d]> (<["e":=VInt e]>
                      (<["phi":=VInt ((p - 1) * (q - 1))]>
                      (<["n":=VInt (p * q)]> (<["q":=VInt q]>
                      (<["p":=VInt p]> (globals s))))))) (screen s))
    | Raise x => Raise x
    end.
Proof.
  unfold rsa_keys. run. now destruct (long_pow e (-1) ((p - 1) * (q - 1))).
Qed.

Lemma rsa_session_run e n w s :
  globals s !! "e" = Some (VInt e) ->
  globals s !! "n" = Some (VInt n) ->
  rsa_session w s =
    match long_pow (draw w 20 80) e n with
    | Ok c =>
        Ok (tt, State (<["encrypted_key":=VInt c]>
                      (<["session_key":=VInt (draw w 20 80)]> (globals s)))
                      (screen s))
    | Raise x => Raise x
    end.
Proof.
  intros He Hn. unfold rsa_session. run.
  now destruct (long_pow (draw w 20 80) e n).
Qed.

Lemma shor_attack_run p q e c n w s :
  globals s !! "p" = Some (VInt p) ->
  globals s !! "q" = Some (VInt q) ->
  globals s !! "e" = Some (VInt e) ->
  globals s !! "encrypted_key" = Some (VInt c) ->
  globals s !! "n" = Some (VInt n) ->
  shor_attack w s =
    match long_pow e (-1) ((p - 1) * (q - 1)) with
    | Ok d =>
        match long_pow c d n with
        | Ok r =>
            Ok (tt, State
              (<["c3":=VObj "column"]> (<["c2":=VObj "column"]>
               (<["c1":=VObj "column"]> (<["recovered_key":=VInt r]>
               (<["d_eve":=VInt d]> (<["q_found":=VInt q]>
               (<["p_found":=VInt p]> (globals s))))))))
              (screen s ++ [("Recovered p", p)] ++ [("Recovered q", q)]
                        ++ [("Recovered Session Key", r)]))
        | Raise x => Raise x
        end
    | Raise x => Raise x
    end.
Proof.
  intros Hp Hq He Hc Hn. unfold shor_attack. run.
  destruct (long_pow e (-1) ((p - 1) * (q - 1))) as [d|]; [|reflexivity].
  run. destruct (long_pow c d n) as [r|]; [|reflexivity].
  unfold metric. run. now rewrite <- !app_assoc.
Qed.


Section Inversion.
Context {A B : Type}.

Lemma bind_ok (m : py A) (k : A -> py B) w s b s' :
  (m ≫= k) w s = Ok (b, s') ->
  exists a s1, m w s = Ok (a, s1) /\ k a w s1 = Ok (b, s').
Proof.
  unfold mbind, py_bind. destruct (m w s) as [[a s1]|]; [eauto | discriminate].
Qed.

Lemma lift_ok (r : result A) w s a s' :
  lift r w s = Ok (a, s') -> s' = s /\ r = Ok a.
Proof. unfold lift. destruct r; intros H; inversion H; auto. Qed.

End Inversion.

Lemma load_ok x w s v s' :
  load x w s = Ok (v, s') -> s' = s /\ globals s !! x = Some v.
Proof.
  unfold load. destruct (globals s !! x); intros H; inversion H; auto.
Qed.

Lemma load_int_ok x w s z s' :
  load_int x w s = Ok (z, s') -> s' = s /\ globals s !! x = Some (VInt z).
Proof.
  intros H. apply bind_ok in H as (v & s1 & Hl & Hi).
  apply load_ok in Hl as [-> Hl]. destruct v; inversion Hi; subst; auto.
Qed.

Lemma assign_ok x v w s a s' :
  assign x v w s = Ok (a, s') -> s' = State (<[x:=v]> (globals s)) (screen s).
Proof. intros H. now inversion H. Qed.

Lemma ret_ok {A : Type} (a : A) w s a' s' :
  (mret a : py A) w s = Ok (a', s') -> s' = s /\ a' = a.
Proof. intros H. now inversion H. Qed.

(** Peeling the statements of a successful run, one bind at a time. *)
Ltac peel H :=
  lazymatch type of H with
  | @mbind py _ _ _ _ _ _ _ = Ok _ =>
      let a := fresh "a" in let s := fresh "s" in let E := fresh "E" in
      apply bind_ok in H as (a & s & E & H);
      peel E; cbn [globals screen] in H; peel H
  | load_int _ _ _ = Ok _ => apply load_int_ok in H as [-> H]
  | load _ _ _ = Ok _ => apply load_ok in H as [-> H]
  | assign _ _ _ _ = Ok _ => apply assign_ok in H as ->
  | lift _ _ _ = Ok _ => apply lift_ok in H as [-> H]
  | bind_objs _ _ _ _ = Ok _ => cbn [bind_objs] in H; peel H
  | @mret py _ _ _ _ _ = Ok _ => apply ret_ok in H as [-> ->]
  | _ => idtac
  end.

(** A successful recovery found its five inputs bound to integers. *)
Lemma shor_attack_inputs w s s' :
  shor_attack w s = Ok (tt, s') ->
  exists p q e c n,
    globals s !! "p" = Some (VInt p) /\ globals s !! "q" = Some (VInt q) /\
    globals s !! "e" = Some (VInt e) /\
    globals s !! "encrypted_key" = Some (VInt c) /\
    globals s !! "n" = Some (VInt n).
Proof.
  unfold shor_attack. intros H. peel H. simplify_map_eq. eauto 10.
Qed.

Lemma inverse_of_3 : long_pow 3 (-1) 352 = Ok 235.
Proof. vm_compute. reflexivity. Qed.

Lemma rsa_setup_with_run p q e w s :
  rsa_setup_with p q e w s =
    match long_pow e (-1) ((p - 1) * (q - 1)) with
    | Ok d =>
        match long_pow (draw w 20 80) e (p * q) with
        | Ok c =>
            Ok (tt, State
              (<["encrypted_key":=VInt c]>
               (<["session_key":=VInt (draw w 20 80)]>
               (<["d":=VInt d]> (<["e":=VInt e]>
               (<["phi":=VInt ((p - 1) * (q - 1))]>
               (<["n":=VInt (p * q)]> (<["q":=VInt q]>
               (<["p":=VInt p]> (globals s)))))))))
              (screen s))
        | Raise x => Raise x
        end
    | Raise x => Raise x
    end.
Proof.
  unfold rsa_setup_with. unfold mbind at 1, py_bind at 1.
  rewrite rsa_keys_run.
  destruct (long_pow e (-1) ((p - 1) * (q - 1))) as [d|]; [|reflexivity].
  rewrite (rsa_session_run e (p * q)) by (simpl; now simplify_map_eq).
  reflexivity.
Qed.

Lemma rsa_setup_run w s :
  rsa_setup w s =
    Ok (tt, State
      (<["encrypted_key":=VInt (draw w 20 80 ^ 3 mod 391)]>
       (<["session_key":=VInt (draw w 20 80)]>
       (<["d":=VInt 235]> (<["e":=VInt 3]> (<["phi":=VInt 352]>
       (<["n":=VInt 391]> (<["q":=VInt 23]> (<["p":=VInt 17]> (globals s)))))))))
      (screen s)).
Proof.
  unfold rsa_setup. rewrite rsa_setup_with_run.
  change ((17 - 1) * (23 - 1)) with 352. change (17 * 23) with 391.
  now rewrite inverse_of_3, long_pow_nonneg by lia.
Qed.

Lemma sections_1_4_ok w s vp vq n :
  globals s !! "p" = Some vp -> globals s !! "q" = Some vq ->
  globals s !! "n" = Some (VInt n) ->
  exists s', sections_1_4 w s = Ok (tt, s').
Proof.
  intros Hp Hq Hn. unfold sections_1_4, metric. run. eauto.
Qed.

Lemma sections_6_7_ok w s : exists s', sections_6_7 w s = Ok (tt, s').
Proof. unfold sections_6_7. run. eauto. Qed.

Lemma distinct_primes_phi p q :
  Z.prime p -> Z.prime q -> p <> q -> 1 < (p - 1) * (q - 1).
Proof.
  intros Hp%Z.prime_ge_2 Hq%Z.prime_ge_2 Hne.
  assert (3 <= p \/ 3 <= q) as [|] by lia; nia.
Qed.

Lemma prime_17 : Z.prime 17.
Proof.
  split; [lia|]. intros n Hn [k Hk].
  assert (0 < k < 17) by nia.
  assert (Hc : n = 2 \/ n = 3 \/ n = 4 \/ n = 5 \/ n = 6 \/ n = 7 \/ n = 8 \/
               n = 9 \/ n = 10 \/ n = 11 \/ n = 12 \/ n = 13 \/ n = 14 \/
               n = 15 \/ n = 16) by lia.
  repeat (destruct Hc as [-> | Hc]; [lia|]). lia.
Qed.

Lemma prime_23 : Z.prime 23.
Proof.
  split; [lia|]. intros n Hn [k Hk].
  assert (0 < k < 23) by nia.
  assert (Hc : n = 2 \/ n = 3 \/ n = 4 \/ n = 5 \/ n = 6 \/ n = 7 \/ n = 8 \/
               n = 9 \/ n = 10 \/ n = 11 \/ n = 12 \/ n = 13 \/ n = 14 \/
               n = 15 \/ n = 16 \/ n = 17 \/ n = 18 \/ n = 19 \/ n = 20 \/
               n = 21 \/ n = 22) by lia.
  repeat (destruct Hc as [-> | Hc]; [lia|]). lia.
Qed.

Lemma writes_int_of {A : Type} W (m : py A) w s a s' x :
  writes W m -> m w s = Ok (a, s') -> x ∉ W -> int_of s' x = int_of s x.
Proof. intros Hw Hm Hx. unfold int_of. now rewrite (Hw w s a s' Hm x Hx). Qed.

Lemma section_5_run w s :
  section_5 w s = if button_pressed w then shor_attack w s else Ok (tt, s).
Proof. unfold section_5, mbind, py_bind, button. now destruct (button_pressed w). Qed.

Lemma main_steps w s s0 s1 s2 s3 :
  rsa_setup w s = Ok (tt, s0) -> sections_1_4 w s0 = Ok (tt, s1) ->
  section_5 w s1 = Ok (tt, s2) -> sections_6_7 w s2 = Ok (tt, s3) ->
  main w s = Ok (tt, s3).
Proof.
  intros H0 H1 H2 H3. unfold main, mbind, py_bind.
  now rewrite H0, H1, H2, H3.
Qed.

(** One step of looking a name up in a state given by its assignments: the
    last assignment either is to that name or is skipped. *)
Ltac map_step :=
  match goal with
  | |- context [ (<[?i:=_]> _) !! ?j ] =>
      tryif constr_eq i j then rewrite lookup_insert_eq
      else rewrite lookup_insert_ne by discriminate
  end.

Ltac lookup :=
  cbn [globals initial]; repeat map_step;
  first [eassumption | reflexivity | apply lookup_empty].

(** Reading an integer global of such a state. *)
Ltac read :=
  unfold int_of; cbn [globals initial]; repeat map_step;
  rewrite ?lookup_empty; try reflexivity.

(** The recovery step on the state the script has reached before section 5. *)
Lemma shor_attack_after_setup w s s0 s1 :
  rsa_setup w s = Ok (tt, s0) -> sections_1_4 w s0 = Ok (tt, s1) ->
  exists s2,
    shor_attack w s1 = Ok (tt, s2) /\
    int_of s2 "recovered_key" =
      Some ((draw w 20 80 ^ 3 mod 391) ^ 235 mod 391).
Proof.
  intros H0 H1. rewrite rsa_setup_run in H0. inversion H0; subst s0; clear H0.
  pose proof (sections_1_4_writes _ _ _ _ H1) as Hf. cbn [globals] in Hf.
  remember (draw w 20 80 ^ 3 mod 391) as c eqn:Hc. clear Hc.
  rewrite (shor_attack_run 17 23 3 c 391);
    try (rewrite Hf by compute_done; lookup).
  change ((17 - 1) * (23 - 1)) with 352.
  rewrite inverse_of_3, long_pow_nonneg by lia.
  eexists. split; [reflexivity|]. read.
Qed.

(** One run of the script, from start to end. *)
Lemma main_run w :
  exists s0 s1 s2 s3,
    rsa_setup w initial = Ok (tt, s0) /\ sections_1_4 w s0 = Ok (tt, s1) /\
    section_5 w s1 = Ok (tt, s2) /\ sections_6_7 w s2 = Ok (tt, s3) /\
    main w initial = Ok (tt, s3) /\
    int_of s2 "recovered_key" =
      (if button_pressed w
       then Some ((draw w 20 80 ^ 3 mod 391) ^ 235 mod 391) else None).
Proof.
  pose proof (rsa_setup_run w initial) as H0.
  remember (draw w 20 80 ^ 3 mod 391) as c eqn:Hc.
  match type of H0 with _ = Ok (tt, ?st) => remember st as s0 eqn:Hs0 end.
  destruct (sections_1_4_ok w s0 (VInt 17) (VInt 23) 391) as [s1 H1];
    try (subst s0; lookup).
  assert (H2 : exists s2, section_5 w s1 = Ok (tt, s2) /\
    int_of s2 "recovered_key" =
      (if button_pressed w then Some (c ^ 235 mod 391) else None)).
  { rewrite section_5_run. destruct (button_pressed w).
    - subst c. exact (shor_attack_after_setup w initial s0 s1 H0 H1).
    - exists s1. split; [reflexivity|].
      rewrite (writes_int_of _ _ _ _ _ _ _ sections_1_4_writes H1) by compute_done.
      subst s0. read. }
  destruct H2 as (s2 & H2 & Hr).
  destruct (sections_6_7_ok w s2) as [s3 H3].
  exists s0, s1, s2, s3. eauto 10 using main_steps.
Qed.

Lemma fixed_world_ok k pressed : world_ok (fixed_world k pressed).
Proof. intros a b Hab. simpl. lia. Qed.

End ScriptFacts.

(** * The claims of the specification *)

Import Py PyFacts Script ScriptFacts.

(** C1. Round trip: for distinct primes [p] and [q], a public exponent
    [e > 0] coprime to [(p-1)*(q-1)] and a message [0 <= m < p*q], the
    private exponent [d = pow(e, -1, phi)] exists, the encryption
    [c = pow(m, e, n)] returns, and [pow(c, d, n)] returns [m] itself. *)
Theorem rsa_round_trip p q e m :
  Z.prime p -> Z.prime q -> p <> q -> 0 < e ->
  Z.gcd e ((p - 1) * (q - 1)) = 1 -> 0 <= m < p * q ->
  exists d c,
    long_pow e (-1) ((p - 1) * (q - 1)) = Ok d /\
    long_pow m e (p * q) = Ok c /\
    long_pow c d (p * q) = Ok m.
Proof.
  intros Hp Hq Hne He Hg Hm.
  pose proof (distinct_primes_phi p q Hp Hq Hne) as Hphi.
  destruct (long_pow_inverse e _ Hphi Hg) as (d & Hd & Hrange & Hinv).
  exists d, (m ^ e mod (p * q)). split; [exact Hd|].
  split; [apply long_pow_nonneg; lia|].
  rewrite long_pow_nonneg by lia. f_equal.
  rewrite Z.mod_pow_l, <- Z.pow_mul_r by lia.
  pose proof (Z.div_mod (e * d) ((p - 1) * (q - 1)) ltac:(lia)) as Hdiv.
  rewrite Hinv in Hdiv.
  assert (Hk : 0 <= e * d / ((p - 1) * (q - 1))) by (apply Z.div_pos; nia).
  replace (e * d) with (1 + e * d / ((p - 1) * (q - 1)) * ((p - 1) * (q - 1)))
    by lia.
  rewrite rsa_exponent_cycle by assumption.
  apply Z.mod_small. lia.
Qed.

Lemma rsa_round_trip_witness :
  (Z.prime 17 /\ Z.prime 23 /\ 17 <> 23 /\ 0 < 3 /\
   Z.gcd 3 ((17 - 1) * (23 - 1)) = 1 /\ 0 <= 50 < 17 * 23) /\
  exists d c,
    long_pow 3 (-1) ((17 - 1) * (23 - 1)) = Ok d /\
    long_pow 50 3 (17 * 23) = Ok c /\
    long_pow c d (17 * 23) = Ok 50.
Proof.
  assert (Hne : 17 <> 23) by lia.
  assert (He : 0 < 3) by lia.
  assert (Hg : Z.gcd 3 ((17 - 1) * (23 - 1)) = 1) by reflexivity.
  assert (Hm : 0 <= 50 < 17 * 23) by lia.
  split;
    [exact (conj prime_17 (conj prime_23 (conj Hne (conj He (conj Hg Hm)))))|].
  exact (rsa_round_trip 17 23 3 50 prime_17 prime_23 Hne He Hg Hm).
Defined.

(** C2, as stated, fails at [p = 17], [q = 23], [e = 2] (so [phi = 352] and
    the gcd is 2): the setup does raise, but the exception is not of a class
    named InvalidKeyParameters. *)
Lemma setup_error_is_python_ValueError :
  ~ (exists x, rsa_keys 17 23 2 demo_world initial = Raise x /\
               exn_class x = "InvalidKeyParameters").
Proof.
  intros (x & Hx & Hclass). rewrite rsa_keys_run in Hx.
  vm_compute in Hx. inversion Hx; subst x. discriminate Hclass.
Qed.

(** C2, amended. Whenever [gcd(e, phi) <> 1] the key setup returns no [d]: the
    call [pow(e, -1, phi)] raises Python's [ValueError], and that very
    exception leaves lines 23 to 27 and the whole setup unchanged. *)
Theorem setup_fails_without_inverse p q e w s :
  Z.gcd e ((p - 1) * (q - 1)) <> 1 ->
  exists msg,
    long_pow e (-1) ((p - 1) * (q - 1)) = Raise (ValueError msg) /\
    rsa_keys p q e w s = Raise (ValueError msg) /\
    rsa_setup_with p q e w s = Raise (ValueError msg).
Proof.
  intros Hg. rewrite rsa_setup_with_run, rsa_keys_run.
  rewrite (long_pow_no_inverse _ _ Hg). eauto.
Qed.

Lemma setup_fails_without_inverse_witness :
  Z.gcd 2 ((17 - 1) * (23 - 1)) <> 1 /\
  exists msg,
    long_pow 2 (-1) ((17 - 1) * (23 - 1)) = Raise (ValueError msg) /\
    rsa_keys 17 23 2 demo_world initial = Raise (ValueError msg) /\
    rsa_setup_with 17 23 2 demo_world initial = Raise (ValueError msg).
Proof.
  assert (Hg : Z.gcd 2 ((17 - 1) * (23 - 1)) <> 1) by (vm_compute; discriminate).
  split; [exact Hg|].
  exact (setup_fails_without_inverse 17 23 2 demo_world initial Hg).
Defined.

(** C3. The script's constants: with [p = 17], [q = 23], [e = 3] the setup
    binds [n = 391], [phi = 352], [d = 235]; [3 * 235 mod 352 = 1]; for the
    session key 50 the cipher is [50^3 mod 391], and raising it to 235 modulo
    391 gives 50 back, in the built-in and in a whole run of the script. *)
Theorem concrete_scenario :
  (exists s,
     rsa_keys 17 23 3 demo_world initial = Ok (tt, s) /\
     int_of s "n" = Some 391 /\ int_of s "phi" = Some 352 /\
     int_of s "d" = Some 235) /\
  (3 * 235) mod 352 = 1 /\
  long_pow 50 3 391 = Ok (50 ^ 3 mod 391) /\
  long_pow (50 ^ 3 mod 391) 235 391 = Ok 50 /\
  (exists s,
     main demo_world initial = Ok (tt, s) /\
     int_of s "session_key" = Some 50 /\
     int_of s "encrypted_key" = Some (50 ^ 3 mod 391) /\
     int_of s "recovered_key" = Some 50).
Proof.
  split; [|split; [|split; [|split]]].
  - eexists. split; [vm_compute; reflexivity|]. now vm_compute.
  - reflexivity.
  - now vm_compute.
  - now vm_compute.
  - eexists. split; [vm_compute; reflexivity|]. now vm_compute.
Qed.

(** C4. Postcondition of the inverse: for distinct primes and
    [gcd(e, phi) = 1] lines 23 to 27 succeed and bind a [d] with
    [(e * d) mod phi = 1]. *)
Theorem setup_inverse_postcondition p q e w s :
  Z.prime p -> Z.prime q -> p <> q -> Z.gcd e ((p - 1) * (q - 1)) = 1 ->
  exists s' d,
    rsa_keys p q e w s = Ok (tt, s') /\
    int_of s' "e" = Some e /\
    int_of s' "phi" = Some ((p - 1) * (q - 1)) /\
    int_of s' "d" = Some d /\
    (e * d) mod ((p - 1) * (q - 1)) = 1.
Proof.
  intros Hp Hq Hne Hg.
  pose proof (distinct_primes_phi p q Hp Hq Hne) as Hphi.
  destruct (long_pow_inverse e _ Hphi Hg) as (d & Hd & _ & Hinv).
  rewrite rsa_keys_run, Hd. eexists _, d. split; [reflexivity|].
  unfold int_of; simpl. now simplify_map_eq.
Qed.

Lemma setup_inverse_postcondition_witness :
  (Z.prime 17 /\ Z.prime 23 /\ 17 <> 23 /\
   Z.gcd 3 ((17 - 1) * (23 - 1)) = 1) /\
  exists s' d,
    rsa_keys 17 23 3 demo_world initial = Ok (tt, s') /\
    int_of s' "e" = Some 3 /\
    int_of s' "phi" = Some ((17 - 1) * (23 - 1)) /\
    int_of s' "d" = Some d /\
    (3 * d) mod ((17 - 1) * (23 - 1)) = 1.
Proof.
  assert (Hne : 17 <> 23) by lia.
  assert (Hg : Z.gcd 3 ((17 - 1) * (23 - 1)) = 1) by reflexivity.
  split; [exact (conj prime_17 (conj prime_23 (conj Hne Hg)))|].
  exact (setup_inverse_postcondition 17 23 3 demo_world initial
           prime_17 prime_23 Hne Hg).
Defined.

(** C5. No factoring: on the state the script reaches before section 5, the
    recovery copies [p] and [q] into [p_found] and [q_found], derives a
    [d_eve] equal to the setup's [d], and its outcome is that of
    [pow(encrypted_key, d, n)], the ordinary decryption (its value when it
    returns, its exception when it raises). *)
Theorem attack_is_decryption p q e w s s0 s1 :
  rsa_setup_with p q e w s = Ok (tt, s0) ->
  sections_1_4 w s0 = Ok (tt, s1) ->
  exists d c,
    long_pow e (-1) ((p - 1) * (q - 1)) = Ok d /\
    int_of s0 "d" = Some d /\
    int_of s0 "encrypted_key" = Some c /\
    match long_pow c d (p * q) with
    | Ok r =>
        exists s2,
          shor_attack w s1 = Ok (tt, s2) /\
          int_of s2 "p_found" = Some p /\ int_of s2 "q_found" = Some q /\
          int_of s2 "d_eve" = Some d /\ int_of s2 "d" = Some d /\
          int_of s2 "recovered_key" = Some r
    | Raise x => shor_attack w s1 = Raise x
    end.
Proof.
  intros H0 H1. rewrite rsa_setup_with_run in H0.
  destruct (long_pow e (-1) ((p - 1) * (q - 1))) as [d|] eqn:Hd; [|discriminate].
  destruct (long_pow (draw w 20 80) e (p * q)) as [c|]; [|discriminate].
  inversion H0; subst s0; clear H0.
  exists d, c. split; [reflexivity|]. split; [read|]. split; [read|].
  pose proof (sections_1_4_writes _ _ _ _ H1) as Hf. cbn [globals] in Hf.
  rewrite (shor_attack_run p q e c (p * q));
    try (rewrite Hf by compute_done; lookup).
  rewrite Hd. destruct (long_pow c d (p * q)) as [r|]; [|reflexivity].
  eexists. split; [reflexivity|]. repeat split; read.
  rewrite Hf by compute_done. read.
Qed.

Lemma attack_is_decryption_witness :
  (rsa_setup_with 17 23 3 demo_world initial = Ok (tt, demo_after_setup) /\
   sections_1_4 demo_world demo_after_setup = Ok (tt, demo_before_attack)) /\
  exists d c,
    long_pow 3 (-1) ((17 - 1) * (23 - 1)) = Ok d /\
    int_of demo_after_setup "d" = Some d /\
    int_of demo_after_setup "encrypted_key" = Some c /\
    match long_pow c d (17 * 23) with
    | Ok r =>
        exists s2,
          shor_attack demo_world demo_before_attack = Ok (tt, s2) /\
          int_of s2 "p_found" = Some 17 /\ int_of s2 "q_found" = Some 23 /\
          int_of s2 "d_eve" = Some d /\ int_of s2 "d" = Some d /\
          int_of s2 "recovered_key" = Some r
    | Raise x => shor_attack demo_world demo_before_attack = Raise x
    end.
Proof.
  assert (H0 : rsa_setup_with 17 23 3 demo_world initial =
               Ok (tt, demo_after_setup)) by (vm_compute; reflexivity).
  assert (H1 : sections_1_4 demo_world demo_after_setup =
               Ok (tt, demo_before_attack)) by (vm_compute; reflexivity).
  split; [exact (conj H0 H1)|].
  exact (attack_is_decryption 17 23 3 demo_world initial
           demo_after_setup demo_before_attack H0 H1).
Defined.

(** C6. Cross-check: for a base [0 <= b < n] and any exponent [k], the
    built-in [pow(b, k, n)] returns what the naive repeated multiplication
    modulo [n] computes. *)
Theorem pow_matches_naive n b k :
  0 <= b < n -> long_pow b (Z.of_nat k) n = Ok (naive_pow b k n).
Proof.
  intros Hb. rewrite long_pow_nonneg by lia. now rewrite naive_pow_spec.
Qed.

Lemma pow_matches_naive_witness :
  0 <= 50 < 391 /\ long_pow 50 (Z.of_nat 3) 391 = Ok (naive_pow 50 3 391).
Proof.
  assert (Hb : 0 <= 50 < 391) by lia.
  exact (conj Hb (pow_matches_naive 391 50 3 Hb)).
Defined.

(** C7. Idempotence: when the recovery has run on a state, it runs again on
    the state it left (in any world) and binds the same [recovered_key]; the
    names it reads from its start state hold the same values before the
    first run, between the runs and after the second. *)
Theorem recovery_idempotent w s s1 :
  shor_attack w s = Ok (tt, s1) ->
  forall w', exists s2 r,
    shor_attack w' s1 = Ok (tt, s2) /\
    int_of s1 "recovered_key" = Some r /\
    int_of s2 "recovered_key" = Some r /\
    Forall (fun x => globals s1 !! x = globals s !! x /\
                     globals s2 !! x = globals s !! x) attack_inputs.
Proof.
  intros H w'.
  pose proof (shor_attack_writes _ _ _ _ H) as Hf.
  destruct (shor_attack_inputs _ _ _ H)
    as (p & q & e & c & n & Hp & Hq & He & Hc & Hn).
  rewrite (shor_attack_run p q e c n) in H by assumption.
  destruct (long_pow e (-1) ((p - 1) * (q - 1))) as [d|] eqn:Hd; [|discriminate].
  destruct (long_pow c d n) as [r|] eqn:Hr; [|discriminate].
  injection H as Hs1.
  rewrite (shor_attack_run p q e c n)
    by (rewrite Hf by compute_done; assumption).
  rewrite Hd, Hr. eexists _, r. split; [reflexivity|].
  split; [rewrite <- Hs1; read|]. split; [read|].
  unfold attack_inputs.
  repeat (apply Forall_cons; split;
          [split; [|cbn [globals]; repeat map_step];
           apply Hf; compute_done|]).
  apply Forall_nil_2.
Qed.

Lemma recovery_idempotent_witness :
  shor_attack demo_world demo_before_attack =
    Ok (tt, state_after (shor_attack demo_world demo_before_attack)) /\
  exists s2 r,
    shor_attack (fixed_world 7 false)
      (state_after (shor_attack demo_world demo_before_attack)) =
      Ok (tt, s2) /\
    int_of (state_after (shor_attack demo_world demo_before_attack))
      "recovered_key" = Some r /\
    int_of s2 "recovered_key" = Some r /\
    Forall (fun x =>
      globals (state_after (shor_attack demo_world demo_before_attack)) !! x =
        globals demo_before_attack !! x /\
      globals s2 !! x = globals demo_before_attack !! x) attack_inputs.
Proof.
  assert (H : shor_attack demo_world demo_before_attack =
              Ok (tt, state_after (shor_attack demo_world demo_before_attack)))
    by (vm_compute; reflexivity).
  split; [exact H|].
  exact (recovery_idempotent demo_world demo_before_attack _ H
           (fixed_world 7 false)).
Defined.

(** C8. When [random.randint] keeps its contract, the setup binds a
    [session_key] between 20 and 80 and [n = 391], so [0 <= session_key < n]. *)
Theorem session_key_in_range w s :
  world_ok w ->
  exists s' k n,
    rsa_setup w s = Ok (tt, s') /\
    int_of s' "session_key" = Some k /\ int_of s' "n" = Some n /\
    n = 391 /\ 20 <= k <= 80 /\ 0 <= k < n.
Proof.
  intros Hw. rewrite rsa_setup_run.
  pose proof (Hw 20 80 ltac:(lia)) as Hk.
  eexists _, (draw w 20 80), 391. split; [reflexivity|].
  split; [read|]. split; [read|]. lia.
Qed.

Lemma session_key_in_range_witness :
  world_ok demo_world /\
  exists s' k n,
    rsa_setup demo_world initial = Ok (tt, s') /\
    int_of s' "session_key" = Some k /\ int_of s' "n" = Some n /\
    n = 391 /\ 20 <= k <= 80 /\ 0 <= k < n.
Proof.
  assert (Hw : world_ok demo_world) by (intros a b Hab; simpl; lia).
  exact (conj Hw (session_key_in_range demo_world initial Hw)).
Defined.

(** C9. Frame: in every run the setup binds each of [p], [q], [n], [phi],
    [e], [d], [session_key], [encrypted_key] to an integer, and neither
    sections 1 to 4 nor section 5 (the recovery) changes any of them. *)
Theorem recovery_frame w :
  exists s0 s1 s2,
    rsa_setup w initial = Ok (tt, s0) /\
    sections_1_4 w s0 = Ok (tt, s1) /\
    section_5 w s1 = Ok (tt, s2) /\
    Forall (fun x => is_Some (int_of s0 x) /\
                     globals s1 !! x = globals s0 !! x /\
                     globals s2 !! x = globals s1 !! x) entities.
Proof.
  destruct (main_run w) as (s0 & s1 & s2 & s3 & H0 & H1 & H2 & _).
  exists s0, s1, s2. repeat (split; [assumption|]).
  pose proof (sections_1_4_writes _ _ _ _ H1) as Hf1.
  pose proof (section_5_writes _ _ _ _ H2) as Hf2.
  rewrite rsa_setup_run in H0. injection H0 as Hs0.
  unfold entities.
  repeat (apply Forall_cons; split;
          [split; [rewrite <- Hs0; read; by eexists
                  | split; [apply Hf1 | apply Hf2]; compute_done]|]).
  apply Forall_nil_2.
Qed.

(** C10. Determinism: two runs whose random source returns the same session
    key both complete, bind the same [encrypted_key], and bind the same
    [recovered_key] whenever the button was pressed. *)
Theorem pipeline_deterministic w1 w2 :
  draw w1 20 80 = draw w2 20 80 ->
  exists s1 s2 c r,
    main w1 initial = Ok (tt, s1) /\ main w2 initial = Ok (tt, s2) /\
    int_of s1 "encrypted_key" = Some c /\
    int_of s2 "encrypted_key" = Some c /\
    int_of s1 "recovered_key" =
      (if button_pressed w1 then Some r else None) /\
    int_of s2 "recovered_key" =
      (if button_pressed w2 then Some r else None).
Proof.
  intros Hk.
  destruct (main_run w1) as (a0 & a1 & a2 & a3 & A0 & A1 & A2 & A3 & Am & Ar).
  destruct (main_run w2) as (b0 & b1 & b2 & b3 & B0 & B1 & B2 & B3 & Bm & Br).
  rewrite rsa_setup_run in A0, B0. rewrite <- Hk in B0, Br.
  remember (draw w1 20 80 ^ 3 mod 391) as c eqn:Hc. clear Hc.
  injection A0 as Ha0. injection B0 as Hb0.
  exists a3, b3, c, (c ^ 235 mod 391).
  split; [exact Am|]. split; [exact Bm|].
  rewrite <- Ar, <- Br.
  rewrite (writes_int_of _ _ _ _ _ _ "encrypted_key" sections_6_7_writes A3),
    (writes_int_of _ _ _ _ _ _ "encrypted_key" section_5_writes A2),
    (writes_int_of _ _ _ _ _ _ "encrypted_key" sections_1_4_writes A1)
    by compute_done.
  rewrite (writes_int_of _ _ _ _ _ _ "encrypted_key" sections_6_7_writes B3),
    (writes_int_of _ _ _ _ _ _ "encrypted_key" section_5_writes B2),
    (writes_int_of _ _ _ _ _ _ "encrypted_key" sections_1_4_writes B1)
    by compute_done.
  rewrite (writes_int_of _ _ _ _ _ _ "recovered_key" sections_6_7_writes A3),
    (writes_int_of _ _ _ _ _ _ "recovered_key" sections_6_7_writes B3)
    by compute_done.
  rewrite <- Ha0, <- Hb0.
  split; [read|]. split; [read|]. split; reflexivity.
Qed.

Lemma pipeline_deterministic_witness :
  draw demo_world 20 80 = draw (fixed_world 50 false) 20 80 /\
  exists s1 s2 c r,
    main demo_world initial = Ok (tt, s1) /\
    main (fixed_world 50 false) initial = Ok (tt, s2) /\
    int_of s1 "encrypted_key" = Some c /\
    int_of s2 "encrypted_key" = Some c /\
    int_of s1 "recovered_key" =
      (if button_pressed demo_world then Some r else None) /\
    int_of s2 "recovered_key" =
      (if button_pressed (fixed_world 50 false) then Some r else None).
Proof.
  assert (Hk : draw demo_world 20 80 = draw (fixed_world 50 false) 20 80)
    by reflexivity.
  exact (conj Hk (pipeline_deterministic demo_world (fixed_world 50 false) Hk)).
Defined.

(** * Further properties of the script *)

(** ** Shared lemmas *)

Module MoreFacts.
Import Py PyFacts Script ScriptFacts.

Section Inverse.

(** An inverse modulo [phi] is unique among the residues. *)
Lemma inverse_unique e phi d1 d2 :
  1 < phi -> 0 <= d1 < phi -> 0 <= d2 < phi ->
  (e * d1) mod phi = 1 -> (e * d2) mod phi = 1 -> d1 = d2.
Proof.
  intros Hphi H1 H2 E1 E2.
  assert (Hc : (d1 * (e * d2)) mod phi = (d2 * (e * d1)) mod phi)
    by (f_equal; ring).
  rewrite <- Zmult_mod_idemp_r, E2, <- (Zmult_mod_idemp_r (e * d1)), E1 in Hc.
  rewrite !Z.mul_1_r, !Z.mod_small in Hc by lia. exact Hc.
Qed.

(** Exactly when [pow(e, -1, phi)] returns. *)
Lemma long_pow_inverse_returns e phi :
  (exists d, long_pow e (-1) phi = Ok d) <-> phi <> 0 /\ Z.gcd e phi = 1.
Proof.
  split.
  - intros [d Hd]. split.
    + intros ->. discriminate Hd.
    + destruct (Z.eq_dec (Z.gcd e phi) 1) as [|Hg]; [assumption|].
      rewrite (long_pow_no_inverse _ _ Hg) in Hd. discriminate.
  - intros [Hnz Hg]. unfold long_pow.
    destruct (Z.eqb_spec phi 0) as [|_]; [contradiction|].
    destruct (Z.eqb_spec (Z.abs phi) 1) as [|H1]; [eauto|].
    destruct (long_invmod_ok e (Z.abs phi)) as (x & -> & _);
      [lia | now rewrite Z.gcd_abs_r | simpl; eauto].
Qed.

(** What [pow(e, -1, phi)] returned is an inverse, and a residue. *)
Lemma long_pow_inverse_sound e phi d :
  1 < phi -> long_pow e (-1) phi = Ok d ->
  Z.gcd e phi = 1 /\ 0 < d < phi /\ (e * d) mod phi = 1.
Proof.
  intros Hphi Hd.
  assert (Hg : Z.gcd e phi = 1)
    by (apply (long_pow_inverse_returns e phi); eauto).
  destruct (long_pow_inverse e phi Hphi Hg) as (d' & Hd' & Hr & Hi).
  rewrite Hd in Hd'. injection Hd' as <-. repeat split; try lia; try assumption.
  destruct (Z.eq_dec d 0) as [->|]; [|lia].
  rewrite Z.mul_0_r, Z.mod_0_l in Hi by lia. discriminate.
Qed.

End Inverse.

Section Cycle.

(** Raising to [e] and then to [d] modulo [p*q] is reduction modulo [p*q]
    whenever [e*d] is 1 modulo [(p-1)*(q-1)]. *)
Lemma pow_pow_cycle p q e d m :
  Z.prime p -> Z.prime q -> p <> q -> 0 <= e -> 0 <= d ->
  (e * d) mod ((p - 1) * (q - 1)) = 1 ->
  (m ^ e mod (p * q)) ^ d mod (p * q) = m mod (p * q).
Proof.
  intros Hp Hq Hne He Hd Hinv.
  pose proof (distinct_primes_phi p q Hp Hq Hne) as Hphi.
  rewrite Z.mod_pow_l, <- Z.pow_mul_r by lia.
  pose proof (Z.div_mod (e * d) ((p - 1) * (q - 1)) ltac:(lia)) as Hdiv.
  rewrite Hinv in Hdiv.
  assert (Hk : 0 <= e * d / ((p - 1) * (q - 1))) by (apply Z.div_pos; nia).
  replace (e * d) with (1 + e * d / ((p - 1) * (q - 1)) * ((p - 1) * (q - 1)))
    by lia.
  now apply rsa_exponent_cycle.
Qed.

End Cycle.

(** The globals of a state given by its assignments, without closing the
    goal. *)
Ltac reads := unfold int_of; cbn [globals initial]; repeat map_step.

Section Runs.

Lemma sections_1_4_run w s vp vq n :
  globals s !! "p" = Some vp -> globals s !! "q" = Some vq ->
  globals s !! "n" = Some (VInt n) ->
  sections_1_4 w s =
    Ok (tt, State
      (<["fig_timeline":=VObj "Figure"]> (<["timeline_df":=VObj "DataFrame"]>
       (<["c4":=VObj "column"]> (<["c3":=VObj "column"]>
       (<["c2":=VObj "column"]> (<["c1":=VObj "column"]>
       (<["fig_time":=VObj "Figure"]> (<["df_time":=VObj "DataFrame"]>
       (<["label":=VObj "str"]> (<["col":=VObj "column"]>
       (<["labels":=VObj "list"]> (<["cols":=VObj "list"]>
       (<["fig_rsa":=VObj "Figure"]> (<["df_rsa":=VObj "DataFrame"]>
       (globals s)))))))))))))))
      (screen s ++ [("RSA Modulus (n)", n)])).
Proof.
  intros Hp Hq Hn. unfold sections_1_4, metric. run. reflexivity.
Qed.

Lemma sections_6_7_run w s :
  sections_6_7 w s =
    Ok (tt, State
      (<["fig_radar":=VObj "Figure"]> (<["radar_df":=VObj "DataFrame"]>
       (<["cols":=VObj "list"]> (globals s))))
      (screen s)).
Proof. reflexivity. Qed.

(** What every run of the script ends in. *)
Lemma main_outcome w :
  exists s,
    main w initial = Ok (tt, s) /\
    int_of s "session_key" = Some (draw w 20 80) /\
    int_of s "encrypted_key" = Some (draw w 20 80 ^ 3 mod 391) /\
    int_of s "recovered_key" =
      (if button_pressed w
       then Some ((draw w 20 80 ^ 3 mod 391) ^ 235 mod 391) else None) /\
    Forall (fun x => is_Some (globals s !! x) <-> button_pressed w = true)
      ["p_found"; "q_found"; "d_eve"; "recovered_key"] /\
    screen s =
      ("RSA Modulus (n)", 391) ::
      (if button_pressed w
       then [("Recovered p", 17); ("Recovered q", 23);
             ("Recovered Session Key",
              (draw w 20 80 ^ 3 mod 391) ^ 235 mod 391)]
       else []).
Proof.
  unfold main, mbind, py_bind. rewrite rsa_setup_run.
  remember (draw w 20 80) as k eqn:Hk. clear Hk.
  remember (k ^ 3 mod 391) as c eqn:Hc. clear Hc.
  rewrite (sections_1_4_run w _ (VInt 17) (VInt 23) 391) by lookup.
  rewrite section_5_run. destruct (button_pressed w).
  - rewrite (shor_attack_run 17 23 3 c 391) by lookup.
    change ((17 - 1) * (23 - 1)) with 352.
    rewrite inverse_of_3, long_pow_nonneg by lia.
    remember (c ^ 235 mod 391) as r eqn:Hr. clear Hr.
    rewrite sections_6_7_run. eexists. split; [reflexivity|].
    split; [reads; reflexivity|]. split; [reads; reflexivity|].
    split; [reads; reflexivity|]. split; [|reflexivity].
    repeat (apply Forall_cons; split;
            [cbn [globals]; repeat map_step; split; [reflexivity | by eexists]|]).
    apply Forall_nil_2.
  - rewrite sections_6_7_run. eexists. split; [reflexivity|].
    split; [reads; reflexivity|]. split; [reads; reflexivity|].
    split; [reads; rewrite lookup_empty; reflexivity|]. split; [|reflexivity].
    repeat (apply Forall_cons; split;
            [cbn [globals initial]; repeat map_step; rewrite lookup_empty;
             split; [intros [? ?]; discriminate | discriminate]|]).
    apply Forall_nil_2.
Qed.

End Runs.

End MoreFacts.

(** ** The properties *)

Import MoreFacts.





(** X3. Lines 23 to 27 return exactly when [phi] is not zero and [e] is
    coprime to it; in particular they raise for [phi = 0] even when
    [gcd(e, phi) = 1]. *)
Theorem key_setup_returns_iff p q e w s :
  (exists s', rsa_keys p q e w s = Ok (tt, s')) <->
  (p - 1) * (q - 1) <> 0 /\ Z.gcd e ((p - 1) * (q - 1)) = 1.
Proof.
  rewrite <- long_pow_inverse_returns, rsa_keys_run. split.
  - intros [s' H].
    destruct (long_pow e (-1) ((p - 1) * (q - 1))) as [d|]; [eauto | discriminate].
  - intros [d ->]. eauto.
Qed.

(** X4. For distinct primes and a coprime [e], the [d] bound by line 27 is a
    residue, [0 < d < phi], and the only residue that inverts [e]. *)
Theorem private_exponent_canonical p q e w s :
  Z.prime p -> Z.prime q -> p <> q -> Z.gcd e ((p - 1) * (q - 1)) = 1 ->
  exists s' d,
    rsa_keys p q e w s = Ok (tt, s') /\ int_of s' "d" = Some d /\
    0 < d < (p - 1) * (q - 1) /\
    forall d', 0 <= d' < (p - 1) * (q - 1) ->
               (e * d') mod ((p - 1) * (q - 1)) = 1 -> d' = d.
Proof.
  intros Hp Hq Hne Hg.
  pose proof (distinct_primes_phi p q Hp Hq Hne) as Hphi.
  destruct (long_pow_inverse e _ Hphi Hg) as (d & Hd & _ & _).
  destruct (long_pow_inverse_sound e _ d Hphi Hd) as (_ & Hr & Hi).
  rewrite rsa_keys_run, Hd. eexists _, d. split; [reflexivity|].
  split; [reads; reflexivity|]. split; [exact Hr|].
  intros d' Hr' Hi'. apply (inverse_unique e ((p - 1) * (q - 1))); auto; lia.
Qed.

Lemma private_exponent_canonical_witness :
  (Z.prime 17 /\ Z.prime 23 /\ 17 <> 23 /\
   Z.gcd 3 ((17 - 1) * (23 - 1)) = 1) /\
  exists s' d,
    rsa_keys 17 23 3 demo_world initial = Ok (tt, s') /\
    int_of s' "d" = Some d /\
    0 < d < (17 - 1) * (23 - 1) /\
    forall d', 0 <= d' < (17 - 1) * (23 - 1) ->
               (3 * d') mod ((17 - 1) * (23 - 1)) = 1 -> d' = d.
Proof.
  assert (Hne : 17 <> 23) by lia.
  assert (Hg : Z.gcd 3 ((17 - 1) * (23 - 1)) = 1) by reflexivity.
  split; [exact (conj prime_17 (conj prime_23 (conj Hne Hg)))|].
  exact (private_exponent_canonical 17 23 3 demo_world initial
           prime_17 prime_23 Hne Hg).
Defined.

(** X5. With any two distinct primes and a valid exponent in place of the
    literals, the recovery returns the session key reduced modulo [p*q]: it
    is the session key itself only when that is below the modulus. *)
Theorem recovery_reduces_session_key p q e w s :
  Z.prime p -> Z.prime q -> p <> q -> 0 < e ->
  Z.gcd e ((p - 1) * (q - 1)) = 1 ->
  exists s0 s1 s2,
    rsa_setup_with p q e w s = Ok (tt, s0) /\
    sections_1_4 w s0 = Ok (tt, s1) /\
    shor_attack w s1 = Ok (tt, s2) /\
    int_of s2 "session_key" = Some (draw w 20 80) /\
    int_of s2 "recovered_key" = Some (draw w 20 80 mod (p * q)).
Proof.
  intros Hp Hq Hne He Hg.
  pose proof (distinct_primes_phi p q Hp Hq Hne) as Hphi.
  pose proof (Z.prime_ge_2 p Hp). pose proof (Z.prime_ge_2 q Hq).
  destruct (long_pow_inverse e _ Hphi Hg) as (d & Hd & Hr & Hi).
  rewrite rsa_setup_with_run, Hd, long_pow_nonneg by nia.
  eexists _, _, _. split; [reflexivity|].
  rewrite (sections_1_4_run w _ (VInt p) (VInt q) (p * q)) by lookup.
  split; [reflexivity|].
  rewrite (shor_attack_run p q e (draw w 20 80 ^ e mod (p * q)) (p * q))
    by lookup.
  rewrite Hd, long_pow_nonneg by nia. split; [reflexivity|].
  split; [reads; reflexivity|]. reads. f_equal.
  apply pow_pow_cycle; auto; lia.
Qed.

Lemma recovery_reduces_session_key_witness :
  (Z.prime 2 /\ Z.prime 3 /\ 2 <> 3 /\ 0 < 1 /\
   Z.gcd 1 ((2 - 1) * (3 - 1)) = 1) /\
  exists s0 s1 s2,
    rsa_setup_with 2 3 1 demo_world initial = Ok (tt, s0) /\
    sections_1_4 demo_world s0 = Ok (tt, s1) /\
    shor_attack demo_world s1 = Ok (tt, s2) /\
    int_of s2 "session_key" = Some (draw demo_world 20 80) /\
    int_of s2 "recovered_key" = Some (draw demo_world 20 80 mod (2 * 3)).
Proof.
  assert (Hne : 2 <> 3) by lia.
  assert (He : 0 < 1) by lia.
  assert (Hg : Z.gcd 1 ((2 - 1) * (3 - 1)) = 1) by reflexivity.
  split; [exact (conj Z.prime_2 (conj Z.prime_3 (conj Hne (conj He Hg))))|].
  exact (recovery_reduces_session_key 2 3 1 demo_world initial
           Z.prime_2 Z.prime_3 Hne He Hg).
Defined.

(** X6. The other direction: decrypting any [0 <= c < p*q] with [d] and
    encrypting the result with [e] gives [c] back, so encryption reaches
    every residue. *)
Theorem encrypt_after_decrypt p q e c :
  Z.prime p -> Z.prime q -> p <> q -> 0 < e ->
  Z.gcd e ((p - 1) * (q - 1)) = 1 -> 0 <= c < p * q ->
  exists d m,
    long_pow e (-1) ((p - 1) * (q - 1)) = Ok d /\
    long_pow c d (p * q) = Ok m /\
    long_pow m e (p * q) = Ok c.
Proof.
  intros Hp Hq Hne He Hg Hc.
  pose proof (distinct_primes_phi p q Hp Hq Hne) as Hphi.
  destruct (long_pow_inverse e _ Hphi Hg) as (d & Hd & Hr & Hi).
  exists d, (c ^ d mod (p * q)). split; [exact Hd|].
  rewrite !long_pow_nonneg by lia. split; [reflexivity|]. f_equal.
  rewrite (pow_pow_cycle p q d e) by (auto; try lia; now rewrite Z.mul_comm).
  apply Z.mod_small. lia.
Qed.

Lemma encrypt_after_decrypt_witness :
  (Z.prime 17 /\ Z.prime 23 /\ 17 <> 23 /\ 0 < 3 /\
   Z.gcd 3 ((17 - 1) * (23 - 1)) = 1 /\ 0 <= 271 < 17 * 23) /\
  exists d m,
    long_pow 3 (-1) ((17 - 1) * (23 - 1)) = Ok d /\
    long_pow 271 d (17 * 23) = Ok m /\
    long_pow m 3 (17 * 23) = Ok 271.
Proof.
  assert (Hne : 17 <> 23) by lia.
  assert (He : 0 < 3) by lia.
  assert (Hg : Z.gcd 3 ((17 - 1) * (23 - 1)) = 1) by reflexivity.
  assert (Hc : 0 <= 271 < 17 * 23) by lia.
  split;
    [exact (conj prime_17 (conj prime_23 (conj Hne (conj He (conj Hg Hc)))))|].
  exact (encrypt_after_decrypt 17 23 3 271 prime_17 prime_23 Hne He Hg Hc).
Defined.

(** X7. The cipher identifies the session key: two runs whose random source
    keeps its contract and returns different session keys bind different
    values to [encrypted_key]. *)
Theorem distinct_keys_distinct_ciphers w1 w2 :
  world_ok w1 -> world_ok w2 -> draw w1 20 80 <> draw w2 20 80 ->
  exists s1 s2 c1 c2,
    main w1 initial = Ok (tt, s1) /\ main w2 initial = Ok (tt, s2) /\
    int_of s1 "encrypted_key" = Some c1 /\
    int_of s2 "encrypted_key" = Some c2 /\ c1 <> c2.
Proof.
  intros Hw1 Hw2 Hne.
  pose proof (Hw1 20 80 ltac:(lia)) as Hk1.
  pose proof (Hw2 20 80 ltac:(lia)) as Hk2.
  destruct (main_outcome w1) as (s1 & Hm1 & _ & Hc1 & _).
  destruct (main_outcome w2) as (s2 & Hm2 & _ & Hc2 & _).
  exists s1, s2, (draw w1 20 80 ^ 3 mod 391), (draw w2 20 80 ^ 3 mod 391).
  repeat (split; [assumption|]). intros Heq. apply Hne.
  assert (E : forall k, 0 <= k < 391 -> (k ^ 3 mod 391) ^ 235 mod 391 = k).
  { intros k Hk. change 391 with (17 * 23).
    rewrite (pow_pow_cycle 17 23 3 235 _ prime_17 prime_23)
      by (lia || reflexivity).
    apply Z.mod_small. lia. }
  rewrite <- (E (draw w1 20 80)), <- (E (draw w2 20 80)) by lia.
  now rewrite Heq.
Qed.

Lemma distinct_keys_distinct_ciphers_witness :
  (world_ok demo_world /\ world_ok (fixed_world 51 true) /\
   draw demo_world 20 80 <> draw (fixed_world 51 true) 20 80) /\
  exists s1 s2 c1 c2,
    main demo_world initial = Ok (tt, s1) /\
    main (fixed_world 51 true) initial = Ok (tt, s2) /\
    int_of s1 "encrypted_key" = Some c1 /\
    int_of s2 "encrypted_key" = Some c2 /\ c1 <> c2.
Proof.
  assert (Hw1 : world_ok demo_world) by (intros a b Hab; simpl; lia).
  assert (Hw2 : world_ok (fixed_world 51 true)) by (intros a b Hab; simpl; lia).
  assert (Hne : draw demo_world 20 80 <> draw (fixed_world 51 true) 20 80)
    by (vm_compute; discriminate).
  split; [exact (conj Hw1 (conj Hw2 Hne))|].
  exact (distinct_keys_distinct_ciphers demo_world (fixed_world 51 true)
           Hw1 Hw2 Hne).
Defined.

(** X8. Whatever [pow(v, w, x)] returns lies between 0 and the modulus, on
    the modulus' side: in [[0, x)] for [x > 0] and in [(x, 0]] for [x < 0],
    for negative exponents too. *)
Theorem pow_result_range v w x r :
  long_pow v w x = Ok r ->
  (0 < x -> 0 <= r < x) /\ (x < 0 -> x < r <= 0).
Proof.
  unfold long_pow. intros H.
  destruct (Z.eqb_spec x 0) as [|Hx]; [discriminate|].
  destruct (Z.eqb_spec (Z.abs x) 1) as [H1|H1].
  { injection H as <-. lia. }
  assert (Hz : forall a b, 0 <= b ->
            0 <= pow_loop (a mod Z.abs x) b (Z.abs x) < Z.abs x).
  { intros a b Hb. rewrite pow_loop_spec by lia. apply Z.mod_pos_bound. lia. }
  assert (Hstep : forall a b, 0 <= b ->
    Ok (if (x <? 0) && negb (pow_loop (a mod Z.abs x) b (Z.abs x) =? 0)
        then pow_loop (a mod Z.abs x) b (Z.abs x) - Z.abs x
        else pow_loop (a mod Z.abs x) b (Z.abs x)) = Ok r ->
    (0 < x -> 0 <= r < x) /\ (x < 0 -> x < r <= 0)).
  { intros a b Hb E. specialize (Hz a b Hb). injection E as <-.
    destruct (Z.ltb_spec x 0); simpl;
      [destruct (Z.eqb_spec (pow_loop (a mod Z.abs x) b (Z.abs x)) 0); simpl|];
      lia. }
  destruct (Z.ltb_spec w 0).
  - destruct (long_invmod v (Z.abs x)) as [a|]; [|discriminate].
    apply (Hstep a (- w)); [lia | exact H].
  - apply (Hstep v w); [lia | exact H].
Qed.

Lemma pow_result_range_witness :
  long_pow 50 3 391 = Ok 271 /\
  (0 < 391 -> 0 <= 271 < 391) /\ (391 < 0 -> 391 < 271 <= 0).
Proof.
  assert (H : long_pow 50 3 391 = Ok 271) by (vm_compute; reflexivity).
  exact (conj H (pow_result_range 50 3 391 271 H)).
Defined.

(** X9. What a successful recovery does to any state: it copies [p] and [q]
    into [p_found] and [q_found], binds [recovered_key], appends exactly three
    metrics showing those three values, and leaves every global other than
    [p_found], [q_found], [d_eve], [recovered_key], [c1], [c2], [c3] as it
    was. *)
Theorem recovery_effect w s s' :
  shor_attack w s = Ok (tt, s') ->
  exists p q r,
    int_of s "p" = Some p /\ int_of s "q" = Some q /\
    int_of s' "p_found" = Some p /\ int_of s' "q_found" = Some q /\
    int_of s' "recovered_key" = Some r /\
    screen s' = screen s ++ [("Recovered p", p); ("Recovered q", q);
                             ("Recovered Session Key", r)] /\
    forall x,
      x ∉ ["p_found"; "q_found"; "d_eve"; "recovered_key"; "c1"; "c2"; "c3"] ->
      globals s' !! x = globals s !! x.
Proof.
  intros H. pose proof (shor_attack_writes _ _ _ _ H) as Hf.
  destruct (shor_attack_inputs _ _ _ H)
    as (p & q & e & c & n & Hp & Hq & He & Hc & Hn).
  rewrite (shor_attack_run p q e c n) in H by assumption.
  destruct (long_pow e (-1) ((p - 1) * (q - 1))) as [d|]; [|discriminate].
  destruct (long_pow c d n) as [r|]; [|discriminate].
  injection H as <-. exists p, q, r.
  unfold int_of at 1 2. rewrite Hp, Hq.
  do 2 (split; [reflexivity|]). do 3 (split; [reads; reflexivity|]).
  split; [reflexivity | exact Hf].
Qed.

Lemma recovery_effect_witness :
  shor_attack demo_world demo_before_attack =
    Ok (tt, state_after (shor_attack demo_world demo_before_attack)) /\
  exists p q r,
    int_of demo_before_attack "p" = Some p /\
    int_of demo_before_attack "q" = Some q /\
    int_of (state_after (shor_attack demo_world demo_before_attack))
      "p_found" = Some p /\
    int_of (state_after (shor_attack demo_world demo_before_attack))
      "q_found" = Some q /\
    int_of (state_after (shor_attack demo_world demo_before_attack))
      "recovered_key" = Some r /\
    screen (state_after (shor_attack demo_world demo_before_attack)) =
      screen demo_before_attack ++
        [("Recovered p", p); ("Recovered q", q);
         ("Recovered Session Key", r)] /\
    forall x,
      x ∉ ["p_found"; "q_found"; "d_eve"; "recovered_key"; "c1"; "c2"; "c3"] ->
      globals (state_after (shor_attack demo_world demo_before_attack)) !! x =
        globals demo_before_attack !! x.
Proof.
  assert (H : shor_attack demo_world demo_before_attack =
              Ok (tt, state_after (shor_attack demo_world demo_before_attack)))
    by (vm_compute; reflexivity).
  exact (conj H (recovery_effect demo_world demo_before_attack _ H)).
Defined.

(** X10. The inverse is an involution on residues: when [pow(e, -1, phi)]
    returns [d] for a modulus above 1, [pow(d, -1, phi)] returns [e]
    reduced modulo [phi]. *)
Theorem inverse_of_inverse e phi d :
  1 < phi -> long_pow e (-1) phi = Ok d ->
  long_pow d (-1) phi = Ok (e mod phi).
Proof.
  intros Hphi Hd.
  destruct (long_pow_inverse_sound e phi d Hphi Hd) as (Hg & Hr & Hi).
  assert (Hgd : Z.gcd d phi = 1).
  { pose proof (Z.gcd_nonneg d phi) as Hnn.
    pose proof (Z.gcd_divide_l d phi) as Hl.
    pose proof (Z.gcd_divide_r d phi) as Hrr.
    assert (Hone : (Z.gcd d phi | 1)).
    { pose proof (Z.div_mod (e * d) phi ltac:(lia)) as Hdiv. rewrite Hi in Hdiv.
      replace 1 with (e * d - phi * (e * d / phi)) by lia.
      apply Z.divide_sub_r; [now apply Z.divide_mul_r | now apply Z.divide_mul_l]. }
    apply Z.divide_1_r_nonneg in Hone; assumption. }
  destruct (long_pow_inverse d phi Hphi Hgd) as (e' & He' & Hr' & Hi').
  rewrite He'. f_equal.
  apply (inverse_unique d phi); try lia; try assumption.
  - apply Z.mod_pos_bound. lia.
  - rewrite Zmult_mod_idemp_r, Z.mul_comm. exact Hi.
Qed.

Lemma inverse_of_inverse_witness :
  (1 < 352 /\ long_pow 3 (-1) 352 = Ok 235) /\
  long_pow 235 (-1) 352 = Ok (3 mod 352).
Proof.
  assert (Hphi : 1 < 352) by lia.
  assert (Hd : long_pow 3 (-1) 352 = Ok 235) by (vm_compute; reflexivity).
  exact (conj (conj Hphi Hd) (inverse_of_inverse 3 352 235 Hphi Hd)).
Defined.
